(* Verification development for OpBoxSerialLibrary.h (OpBox serial packet
   protocol): the packet encoders, the handshake loop and the packet decoder
   SerialReceiveAndParsePacket, embedded over an explicit serial channel. *)

From stdpp Require Import base gmap list.
From Stdlib Require Import ZArith Lia.
Import ListNotations.
Open Scope Z_scope.

(* ------------------------------------------------------------------ *)
(** * Wire constants *)

(** Bytes on the wire are integers in 0..255, as returned by
    [Serial.read()]; C strings are the lists of their bytes before the
    terminating NUL. *)
Definition PACKET_START : Z := 60.  (* '<' *)
Definition PACKET_INT   : Z := 124. (* '|' *)
Definition PACKET_INT2  : Z := 126. (* '~' *)
Definition PACKET_CHAR  : Z := 64.  (* '@' *)
Definition PACKET_END   : Z := 62.  (* '>' *)
Definition MAX_BUFFER   : nat := 100.

Definition chr_A : Z := 65.  (* 'A' *)
Definition chr_P : Z := 80.  (* 'P' *)

(** The string literals of the source. *)
Definition str_Err : list Z := [69; 114; 114]. (* "Err" *)
Definition str_SerInputErr : list Z :=
  [83; 101; 114; 73; 110; 112; 117; 116; 69; 114; 114]. (* "SerInputErr" *)

(* ------------------------------------------------------------------ *)
(** * Encoders: each returns the bytes the function writes to [Serial] *)

Definition SerialWriteLongInt (val : Z) : list Z :=
  [Z.land (Z.shiftr val 24) 255; Z.land (Z.shiftr val 16) 255;
   Z.land (Z.shiftr val 8) 255; Z.land val 255].

Definition SerialSendInt (text : list Z) (ts : Z) : list Z :=
  [PACKET_START] ++ text ++ [PACKET_INT] ++ SerialWriteLongInt ts ++ [PACKET_END].

Definition SerialSendIntPair (text : list Z) (int1 int2 : Z) : list Z :=
  [PACKET_START] ++ text ++ [PACKET_INT2] ++ SerialWriteLongInt int1
    ++ SerialWriteLongInt int2 ++ [PACKET_END].

Definition SerialSendChar (text : list Z) (data : Z) : list Z :=
  [PACKET_START] ++ text ++ [PACKET_CHAR] ++ [data] ++ [PACKET_END].

Definition SerialSendCharPair (text : list Z) (char1 char2 : Z) : list Z :=
  [PACKET_START] ++ text ++ [PACKET_CHAR] ++ [char1; char2] ++ [PACKET_END].

Definition SerialSendErrorText (text : list Z) : list Z :=
  [PACKET_START] ++ str_Err ++ [PACKET_CHAR] ++ text ++ [PACKET_END].

(** The spec's [EncodeChar(label, data)], whose payload is any byte string
    (the source's [SerialSendChar] takes a single [char]); used only to
    compare [SerialSendErrorText] against the spec's description. *)
Definition EncodeChar_spec (label data : list Z) : list Z :=
  [PACKET_START] ++ label ++ [PACKET_CHAR] ++ data ++ [PACKET_END].

(* ------------------------------------------------------------------ *)
(** * Handshake *)

(** The channel seen by [SerialHandshake]: the bytes already buffered at
    the call, then one chunk per 500 ms poll at which the receive buffer
    was found empty (an ['A'] is written before each such chunk arrives).
    [HsPending out]: no more chunks have arrived; the loop has written
    [out], including the ['A'] of the empty poll it is now repeating. *)
Inductive hs_result :=
| HsReady (rest : list Z) (later : list (list Z)) (out : list Z)
| HsPending (out : list Z).

(** [while (true) { while (available <= 0) { write('A'); delay(500); }
      if (available > 0 && read() == 'P') { delay(500); break; } }] *)
Fixpoint hs_loop (arr : list (list Z)) (buf : list Z) (out : list Z)
  {struct arr} : hs_result :=
  (fix scan (l : list Z) (out : list Z) : hs_result :=
     match l with
     | [] =>
         match arr with
         | [] => HsPending (out ++ [chr_A])
         | c :: arr' => hs_loop arr' c (out ++ [chr_A])
         end
     | b :: l' => if Z.eqb b chr_P then HsReady l' arr out else scan l' out
     end) buf out.

Definition SerialHandshake (buf0 : list Z) (arr : list (list Z)) : hs_result :=
  hs_loop arr buf0 [].

(* ------------------------------------------------------------------ *)
(** * Decoder *)

(** The locals of [SerialReceiveAndParsePacket], the two caller arrays
    (indexed memory cells; the source does no bounds checking) and the
    bytes written to [Serial] during the call. [flag_ser_end] is left out:
    the loop is left by the [return] that follows its assignment.
    [data_type] is uninitialised in the source; it is only read after the
    label-terminating branch has assigned it. *)
Record dstate := mkD {
  flag_ser_label : bool;
  flag_ser_data : bool;
  data_type : Z;
  length_label : nat;
  length_data : nat;
  buffer_label : gmap nat Z;
  buffer_data : gmap nat Z;
  written : list Z
}.

Definition init_state (bl bd : gmap nat Z) : dstate :=
  mkD false false 0 0 0 bl bd [].

Inductive step_result :=
| Continue (s : dstate)
| Return (s : dstate).

(** One iteration of the [while (!flag_ser_end)] loop that found a byte. *)
Definition step (s : dstate) (inByte : Z) : step_result :=
  if flag_ser_label s then
    if (Z.eqb inByte PACKET_INT || Z.eqb inByte PACKET_CHAR)%bool then
      Continue (mkD false true inByte (length_label s) 0
                  (<[length_label s := 0]> (buffer_label s))
                  (buffer_data s) (written s))
    else
      Continue (mkD true (flag_ser_data s) (data_type s) (S (length_label s))
                  (length_data s)
                  (<[length_label s := inByte]> (buffer_label s))
                  (buffer_data s) (written s))
  else if flag_ser_data s then
    if Z.eqb inByte PACKET_END then
      Return (mkD false false (data_type s) (length_label s) (length_data s)
                (buffer_label s)
                (<[length_data s := 0]> (buffer_data s)) (written s))
    else
      Continue (mkD false true (data_type s) (length_label s)
                  (S (length_data s)) (buffer_label s)
                  (<[length_data s := inByte]> (buffer_data s)) (written s))
  else if Z.eqb inByte PACKET_START then
    Continue (mkD true false (data_type s) 0 (length_data s)
                (buffer_label s) (buffer_data s) (written s))
  else
    Continue (mkD false false (data_type s) (length_label s) (length_data s)
                (buffer_label s) (buffer_data s)
                (written s ++ SerialSendErrorText str_SerInputErr ++ [inByte])).

(** Outcome of a call over the bytes available so far: returned (with the
    bytes left in the channel), or still polling in the given state. *)
Inductive outcome :=
| Returned (s : dstate) (rest : list Z)
| Waiting (s : dstate).

Fixpoint run (s : dstate) (l : list Z) : outcome :=
  match l with
  | [] => Waiting s
  | b :: l' =>
      match step s b with
      | Continue s' => run s' l'
      | Return s' => Returned s' l'
      end
  end.

(** Bytes arriving in chunks: the polling loop resumes with its state when
    the next chunk arrives. *)
Fixpoint run_chunks (s : dstate) (cs : list (list Z)) : outcome :=
  match cs with
  | [] => Waiting s
  | c :: cs' =>
      match run s c with
      | Waiting s' => run_chunks s' cs'
      | Returned s' rest => Returned s' (rest ++ concat cs')
      end
  end.

Definition SerialReceiveAndParsePacket (bl bd : gmap nat Z) (l : list Z) : outcome :=
  run (init_state bl bd) l.

(** What the caller reads after a return: the returned [data_type], the
    label cells before its terminator and the data cells before its
    terminator. *)
Definition read_cells (m : gmap nat Z) (n : nat) : list Z :=
  map (fun i => default 0 (m !! i)) (seq 0 n).

Definition packet_of (s : dstate) : Z * list Z * list Z :=
  (data_type s, read_cells (buffer_label s) (length_label s),
   read_cells (buffer_data s) (length_data s)).

(** The caller invoking [SerialReceiveAndParsePacket] again and again with
    the same two arrays: the packets read and the bytes written per call. *)
Fixpoint decode_all (fuel : nat) (bl bd : gmap nat Z) (l : list Z)
  : list (Z * list Z * list Z * list Z) :=
  match fuel with
  | O => []
  | S fuel' =>
      match SerialReceiveAndParsePacket bl bd l with
      | Waiting _ => []
      | Returned s rest =>
          (packet_of s, written s)
            :: decode_all fuel' (buffer_label s) (buffer_data s) rest
      end
  end.

(* ------------------------------------------------------------------ *)
(** * Packets and their round trip *)

(** A packet as the encoders build it (labels are the C-string bytes). *)
Inductive packet :=
| PSingleInt (label : list Z) (v : Z)
| PIntPair (label : list Z) (v1 v2 : Z)
| PChar (label : list Z) (c : Z)
| PCharPair (label : list Z) (c1 c2 : Z).

Definition encode (p : packet) : list Z :=
  match p with
  | PSingleInt l v => SerialSendInt l v
  | PIntPair l v1 v2 => SerialSendIntPair l v1 v2
  | PChar l c => SerialSendChar l c
  | PCharPair l c1 c2 => SerialSendCharPair l c1 c2
  end.

Definition label_of (p : packet) : list Z :=
  match p with
  | PSingleInt l _ | PIntPair l _ _ | PChar l _ | PCharPair l _ _ => l
  end.

(** The type marker the encoder writes after the label. *)
Definition marker_of (p : packet) : Z :=
  match p with
  | PSingleInt _ _ => PACKET_INT
  | PIntPair _ _ _ => PACKET_INT2
  | PChar _ _ | PCharPair _ _ _ => PACKET_CHAR
  end.

(** The payload bytes the encoder writes between marker and END. *)
Definition payload_of (p : packet) : list Z :=
  match p with
  | PSingleInt _ v => SerialWriteLongInt v
  | PIntPair _ v1 v2 => SerialWriteLongInt v1 ++ SerialWriteLongInt v2
  | PChar _ c => [c]
  | PCharPair _ c1 c2 => [c1; c2]
  end.

Definition is_int_pair (p : packet) : bool :=
  match p with PIntPair _ _ _ => true | _ => false end.

(** Writing a byte string into consecutive cells from index [n], in the
    order the decoder does it. *)
Fixpoint write_seq (m : gmap nat Z) (n : nat) (l : list Z) : gmap nat Z :=
  match l with
  | [] => m
  | x :: l' => write_seq (<[n := x]> m) (S n) l'
  end.

Definition not_label_end (b : Z) : Prop := b <> PACKET_INT /\ b <> PACKET_CHAR.

(** The notice the decoder writes for a byte [b] seen while idle: an
    "Err"-labelled CHAR packet with text "SerInputErr", then [b] itself. *)
Definition input_error_notice (b : Z) : list Z :=
  SerialSendErrorText str_SerInputErr ++ [b].

(** Two decoder states that differ at most in buffer cells the decoder has
    not written in the current call. *)
Definition agree (s1 s2 : dstate) : Prop :=
  flag_ser_label s1 = flag_ser_label s2 /\ flag_ser_data s1 = flag_ser_data s2 /\
  data_type s1 = data_type s2 /\ length_label s1 = length_label s2 /\
  length_data s1 = length_data s2 /\ written s1 = written s2 /\
  read_cells (buffer_label s1) (length_label s1) =
    read_cells (buffer_label s2) (length_label s2) /\
  read_cells (buffer_data s1) (length_data s1) =
    read_cells (buffer_data s2) (length_data s2).

Definition is_type_marker (b : Z) : Prop := b = PACKET_INT \/ b = PACKET_CHAR.

(* ------------------------------------------------------------------ *)
(** * The remaining functions of the library *)

(** [SerialSendErrorNumAsText(long num_data)]: [Serial.write(num_data)] on a
    [long] is the Arduino core's [write((uint8_t)n)], one byte, the low
    eight bits of the two's-complement value. *)
Definition SerialSendErrorNumAsText (num_data : Z) : list Z :=
  [PACKET_START] ++ str_Err ++ [PACKET_CHAR] ++ [Z.land num_data 255] ++ [PACKET_END].

(** The [for (i = 0; i < max_num_data; i++)] loop of [CopyCharArray], from
    index [i] with [k] iterations left. A read of a cell the array does
    not have (out of bounds) is undefined behaviour: [None]. *)
Fixpoint copy_loop (source target : gmap nat Z) (i k : nat)
  : option (gmap nat Z * nat) :=
  match k with
  | O => Some (target, i)
  | S k' =>
      match source !! i with
      | None => None
      | Some c =>
          if Z.eqb c 0 then Some (target, i)
          else copy_loop source (<[i := c]> target) (S i) k'
      end
  end.

(** [strlen] scanning from index [i]; [None] for a read out of bounds.
    With [S (size m)] steps of fuel the fuel never runs out first, since a
    scan of that many present cells would need more keys than [m] has. *)
Fixpoint c_strlen (m : gmap nat Z) (i fuel : nat) : option nat :=
  match fuel with
  | O => None
  | S fuel' =>
      match m !! i with
      | None => None
      | Some c => if Z.eqb c 0 then Some i else c_strlen m (S i) fuel'
      end
  end.

(** [int CopyCharArray(char source[], char target[], int max_num_data)]:
    the updated target array and the returned [strlen(target)]. *)
Definition CopyCharArray (source target : gmap nat Z) (max_num_data : Z)
  : option (gmap nat Z * Z) :=
  match copy_loop source target 0 (Z.to_nat max_num_data) with
  | None => None
  | Some (t, i) =>
      let t' := <[i := 0]> t in
      match c_strlen t' 0 (S (size t')) with
      | None => None
      | Some n => Some (t', Z.of_nat n)
      end
  end.

(** A packet the decoder can read back: not an IntPair, no '|' or '@' in
    the label, no '>' in the payload. *)
Definition decodable (p : packet) : Prop :=
  is_int_pair p = false /\ Forall not_label_end (label_of p) /\
  Forall (fun b => b <> PACKET_END) (payload_of p).

(* ------------------------------------------------------------------ *)
(** * Decoder lemmas *)

Lemma run_app s l1 l2 :
  run s (l1 ++ l2) =
  match run s l1 with
  | Waiting s' => run s' l2
  | Returned s' r => Returned s' (r ++ l2)
  end.
Proof.
  revert s. induction l1 as [|b l1 IH]; intros s; simpl; [reflexivity|].
  destruct (step s b); [apply IH | reflexivity].
Qed.

Lemma run_chunks_concat s cs : run_chunks s cs = run s (concat cs).
Proof.
  revert s. induction cs as [|c cs IH]; intros s; simpl; [reflexivity|].
  rewrite run_app. destruct (run s c); [reflexivity | apply IH].
Qed.

Lemma write_seq_lt m n l j : (j < n)%nat -> write_seq m n l !! j = m !! j.
Proof.
  revert m n. induction l as [|x l IH]; intros m n Hj; simpl; [reflexivity|].
  rewrite IH by lia. apply lookup_insert_ne. lia.
Qed.

Lemma write_seq_read m n l :
  map (fun i => default 0 (write_seq m n l !! i)) (seq n (length l)) = l.
Proof.
  revert m n. induction l as [|x l IH]; intros m n; simpl; [reflexivity|].
  rewrite write_seq_lt by lia. rewrite lookup_insert_eq. simpl.
  f_equal. apply IH.
Qed.

Lemma read_cells_terminated m l :
  read_cells (<[length l := 0]> (write_seq m 0 l)) (length l) = l.
Proof.
  unfold read_cells. rewrite <- (write_seq_read m 0 l) at 2.
  apply map_ext_in. intros i Hi. apply in_seq in Hi.
  rewrite lookup_insert_ne by lia. reflexivity.
Qed.

Lemma run_label s lab t :
  flag_ser_label s = true -> Forall not_label_end lab ->
  run s (lab ++ t) =
  run (mkD true (flag_ser_data s) (data_type s) (length_label s + length lab)
         (length_data s) (write_seq (buffer_label s) (length_label s) lab)
         (buffer_data s) (written s)) t.
Proof.
  revert s. induction lab as [|b lab IH]; intros [fl fd dt ll ld bl bd w] Hl Hf;
    simpl in *; subst fl.
  - rewrite Nat.add_0_r. reflexivity.
  - inversion Hf as [|? ? [H1 H2] Hf']; subst. unfold step; simpl.
    rewrite (proj2 (Z.eqb_neq b PACKET_INT) H1), (proj2 (Z.eqb_neq b PACKET_CHAR) H2).
    simpl. rewrite IH by auto. simpl. do 2 f_equal. lia.
Qed.

Lemma run_data s pay t :
  flag_ser_label s = false -> flag_ser_data s = true ->
  Forall (fun b => b <> PACKET_END) pay ->
  run s (pay ++ t) =
  run (mkD false true (data_type s) (length_label s)
         (length_data s + length pay) (buffer_label s)
         (write_seq (buffer_data s) (length_data s) pay) (written s)) t.
Proof.
  revert s. induction pay as [|b pay IH]; intros [fl fd dt ll ld bl bd w] Hl Hd Hf;
    simpl in *; subst fl fd.
  - rewrite Nat.add_0_r. reflexivity.
  - inversion Hf as [|? ? H1 Hf']; subst. unfold step; simpl.
    rewrite (proj2 (Z.eqb_neq b PACKET_END) H1).
    rewrite IH by auto. simpl. do 2 f_equal. lia.
Qed.

(** A whole frame [START label marker payload END], read from the idle
    state. *)
Lemma run_frame s lab m pay t :
  flag_ser_label s = false -> flag_ser_data s = false ->
  Forall not_label_end lab -> (m = PACKET_INT \/ m = PACKET_CHAR) ->
  Forall (fun b => b <> PACKET_END) pay ->
  exists s', run s ([PACKET_START] ++ lab ++ [m] ++ pay ++ [PACKET_END] ++ t)
             = Returned s' t /\
     packet_of s' = (m, lab, pay) /\ written s' = written s /\
     buffer_label s' !! length lab = Some 0 /\
     buffer_data s' !! length pay = Some 0.
Proof.
  intros Hl Hd Hlab Hm Hpay.
  destruct s as [fl fd dt ll ld bl bd w]; simpl in *; subst fl fd.
  simpl.
  rewrite run_label by (simpl; auto). simpl.
  assert (Hm' : (Z.eqb m PACKET_INT || Z.eqb m PACKET_CHAR)%bool = true)
    by (destruct Hm; subst; reflexivity).
  unfold step at 1; simpl. rewrite Hm'.
  rewrite run_data by (simpl; auto). simpl.
  eexists. split; [reflexivity|].
  unfold packet_of; simpl. split; [|split; [reflexivity | split]].
  - f_equal; [f_equal|].
    + apply read_cells_terminated.
    + apply read_cells_terminated.
  - rewrite lookup_insert_eq. reflexivity.
  - rewrite lookup_insert_eq. reflexivity.
Qed.

Lemma encode_frame p :
  encode p = [PACKET_START] ++ label_of p ++ [marker_of p] ++ payload_of p
               ++ [PACKET_END].
Proof.
  destruct p; simpl; unfold SerialSendInt, SerialSendIntPair, SerialSendChar,
    SerialSendCharPair; simpl; rewrite <- ?app_assoc; reflexivity.
Qed.

(** ** C1 *)

(** C1 (counterexample): a valid SingleInt packet whose value has a byte
    equal to END (value 62) does not round-trip: the decoder stops at that
    byte and returns three payload bytes, leaving the real END unread. *)
Lemma C1_counterexample :
  match SerialReceiveAndParsePacket ∅ ∅ (encode (PSingleInt [84; 115] 62)) with
  | Returned s rest =>
      packet_of s = (PACKET_INT, [84; 115], [0; 0; 0]) /\ rest = [PACKET_END] /\
      packet_of s <> (marker_of (PSingleInt [84; 115] 62), [84; 115],
                      payload_of (PSingleInt [84; 115] 62))
  | Waiting _ => False
  end.
Proof.
  vm_compute. split; [reflexivity | split; [reflexivity | discriminate]].
Qed.

(** C1 (amended): for every SingleInt, Char or CharPair packet whose label
    contains neither '|' nor '@' and whose payload bytes contain no '>',
    the decoder, fed the encoded bytes split into any chunks (and followed
    by anything), returns after the END byte with the packet's marker, its
    label and its payload bytes, leaving the bytes after END unread, for any
    initial contents of the caller's buffers. *)
Theorem C1_roundtrip_chunked (p : packet) (cs : list (list Z)) (t : list Z)
    (bl bd : gmap nat Z) :
  is_int_pair p = false ->
  Forall not_label_end (label_of p) ->
  Forall (fun b => b <> PACKET_END) (payload_of p) ->
  concat cs = encode p ++ t ->
  exists s, run_chunks (init_state bl bd) cs = Returned s t /\
    packet_of s = (marker_of p, label_of p, payload_of p).
Proof.
  intros Hp Hl Hpay Hcs.
  rewrite run_chunks_concat, Hcs, encode_frame, <- !app_assoc.
  destruct (run_frame (init_state bl bd) (label_of p) (marker_of p)
              (payload_of p) t) as (s & Hrun & Hpk & _);
    try reflexivity; try assumption.
  - destruct p; simpl in *; try discriminate; auto.
  - exists s. split; assumption.
Qed.

Lemma C1_roundtrip_chunked_witness :
  is_int_pair (PSingleInt [84; 115] 305419896) = false /\
  Forall not_label_end (label_of (PSingleInt [84; 115] 305419896)) /\
  Forall (fun b => b <> PACKET_END) (payload_of (PSingleInt [84; 115] 305419896)) /\
  concat [[60; 84]; [115; 124; 18]; [52; 86; 120; 62; 60]] =
    encode (PSingleInt [84; 115] 305419896) ++ [60] /\
  exists s, run_chunks (init_state ∅ ∅) [[60; 84]; [115; 124; 18]; [52; 86; 120; 62; 60]]
              = Returned s [60] /\
    packet_of s = (marker_of (PSingleInt [84; 115] 305419896),
                   label_of (PSingleInt [84; 115] 305419896),
                   payload_of (PSingleInt [84; 115] 305419896)).
Proof.
  assert (Hl : Forall not_label_end (label_of (PSingleInt [84; 115] 305419896)))
    by (repeat constructor; unfold PACKET_INT, PACKET_CHAR; lia).
  assert (Hp : Forall (fun b => b <> PACKET_END)
                 (payload_of (PSingleInt [84; 115] 305419896)))
    by (vm_compute; repeat constructor; discriminate).
  split; [reflexivity|]. split; [exact Hl|]. split; [exact Hp|].
  split; [vm_compute; reflexivity|].
  apply (C1_roundtrip_chunked _ _ [60] ∅ ∅); [reflexivity | exact Hl | exact Hp |].
  vm_compute. reflexivity.
Defined.

(** ** C2 *)

(** C2 (counterexample): the IntPair packet ("Ts", 1, 4294967295) is
    encoded with the INT2 marker '~', which the decoder does not take as a
    label terminator: on the complete encoding it never returns. *)
Lemma C2_counterexample :
  SerialSendIntPair [84; 115] 1 4294967295 =
    [60; 84; 115; 126; 0; 0; 0; 1; 255; 255; 255; 255; 62] /\
  exists s, SerialReceiveAndParsePacket ∅ ∅ (SerialSendIntPair [84; 115] 1 4294967295)
            = Waiting s.
Proof. split; [reflexivity | eexists; vm_compute; reflexivity]. Qed.

(** C2 (amended): [SerialSendIntPair label 1 4294967295] writes START, the
    label, '~', 00 00 00 01, FF FF FF FF, END (each value big-endian); for a
    label without '|' or '@' the decoder returns no packet on these bytes:
    it is still collecting the label, which now holds the label followed by
    '~', the eight value bytes and the END byte. *)
Theorem C2_intpair_not_decoded (label : list Z) (bl bd : gmap nat Z) :
  Forall not_label_end label ->
  SerialSendIntPair label 1 4294967295 =
    [PACKET_START] ++ label ++ [126; 0; 0; 0; 1; 255; 255; 255; 255; 62] /\
  exists s, SerialReceiveAndParsePacket bl bd (SerialSendIntPair label 1 4294967295)
            = Waiting s /\ flag_ser_label s = true /\
    read_cells (buffer_label s) (length_label s) =
      label ++ [126; 0; 0; 0; 1; 255; 255; 255; 255; 62].
Proof.
  intros Hl. split; [reflexivity|].
  unfold SerialReceiveAndParsePacket, SerialSendIntPair.
  assert (Htail : Forall not_label_end [126; 0; 0; 0; 1; 255; 255; 255; 255; 62])
    by (repeat constructor; unfold PACKET_INT, PACKET_CHAR; lia).
  replace ([PACKET_START] ++ label ++ [PACKET_INT2] ++ SerialWriteLongInt 1
            ++ SerialWriteLongInt 4294967295 ++ [PACKET_END])
    with (PACKET_START :: (label ++ [126; 0; 0; 0; 1; 255; 255; 255; 255; 62]) ++ [])
    by (rewrite app_nil_r; reflexivity).
  simpl run at 1.
  rewrite run_label by (simpl; auto using Forall_app_2). simpl.
  eexists. split; [reflexivity|]. split; [reflexivity|].
  unfold read_cells. apply write_seq_read.
Qed.

Lemma C2_intpair_not_decoded_witness :
  Forall not_label_end [84; 115] /\
  SerialSendIntPair [84; 115] 1 4294967295 =
    [PACKET_START] ++ [84; 115] ++ [126; 0; 0; 0; 1; 255; 255; 255; 255; 62] /\
  exists s, SerialReceiveAndParsePacket ∅ ∅ (SerialSendIntPair [84; 115] 1 4294967295)
            = Waiting s /\ flag_ser_label s = true /\
    read_cells (buffer_label s) (length_label s) =
      [84; 115] ++ [126; 0; 0; 0; 1; 255; 255; 255; 255; 62].
Proof.
  assert (H : Forall not_label_end [84; 115])
    by (repeat constructor; unfold PACKET_INT, PACKET_CHAR; lia).
  split; [exact H | apply (C2_intpair_not_decoded [84; 115] ∅ ∅ H)].
Defined.

(** ** C3 *)

(** C3 (counterexample): after START and 101 ordinary label bytes the
    decoder has written the label cell at index MAX_BUFFER (100), past a
    100-byte buffer, and is still running: there is no overflow outcome. *)
Lemma C3_counterexample :
  exists s, SerialReceiveAndParsePacket ∅ ∅ (PACKET_START :: repeat 97 101) = Waiting s /\
    buffer_label s !! MAX_BUFFER = Some 97 /\ length_label s = S MAX_BUFFER.
Proof. eexists. vm_compute. split; [reflexivity | split; reflexivity]. Qed.

Lemma run_cons s b l :
  run s (b :: l) =
  match step s b with Continue s' => run s' l | Return s' => Returned s' l end.
Proof. reflexivity. Qed.

Lemma orb_markers b :
  (Z.eqb b PACKET_INT || Z.eqb b PACKET_CHAR)%bool = true <-> is_type_marker b.
Proof.
  unfold is_type_marker. rewrite Bool.orb_true_iff, !Z.eqb_eq. tauto.
Qed.

Lemma orb_markers_false b :
  (Z.eqb b PACKET_INT || Z.eqb b PACKET_CHAR)%bool = false -> not_label_end b.
Proof.
  unfold not_label_end. rewrite Bool.orb_false_iff, !Z.eqb_neq. tauto.
Qed.

Lemma write_seq_lookup m n l i :
  (i < length l)%nat -> write_seq m n l !! (n + i)%nat = l !! i.
Proof.
  revert m n i. induction l as [|x l IH]; intros m n i Hi; simpl in *; [lia|].
  destruct i as [|i].
  - rewrite Nat.add_0_r, write_seq_lt by lia. apply lookup_insert_eq.
  - replace (n + S i)%nat with (S n + i)%nat by lia. apply IH. lia.
Qed.

(** C3 (amended): the decoder does no capacity check on either buffer.
    After START and any label bytes [lab] other than '|' and '@' it is still
    collecting the label, counts [length lab] label bytes and has written
    [lab] into cells 0..length lab - 1 of the label buffer; after a type
    marker and any payload bytes [pay] other than '>' it is still collecting
    the payload, counts [length pay] bytes and has written [pay] into cells
    0..length pay - 1 of the data buffer. This holds for every length, so
    with more than MAX_BUFFER (100) bytes it writes at indices at or past
    the capacity; a call's only outcomes are returning or waiting, so no
    BufferOverflow outcome exists. *)
Theorem C3_no_capacity_check (bl bd : gmap nat Z) (lab pay : list Z) (m : Z) :
  Forall not_label_end lab -> is_type_marker m ->
  Forall (fun b => b <> PACKET_END) pay ->
  (exists s, SerialReceiveAndParsePacket bl bd (PACKET_START :: lab) = Waiting s /\
     flag_ser_label s = true /\ length_label s = length lab /\
     (forall i, (i < length lab)%nat -> buffer_label s !! i = lab !! i)) /\
  (exists s, SerialReceiveAndParsePacket bl bd (PACKET_START :: lab ++ m :: pay) = Waiting s /\
     flag_ser_data s = true /\ length_data s = length pay /\
     (forall i, (i < length pay)%nat -> buffer_data s !! i = pay !! i)).
Proof.
  intros Hl Hm Hp. unfold SerialReceiveAndParsePacket. split.
  - rewrite <- (app_nil_r lab). simpl run at 1.
    rewrite run_label by (simpl; auto). simpl. rewrite app_nil_r.
    eexists. split; [reflexivity|]. split; [reflexivity|]. split; [reflexivity|].
    intros i Hi. apply (write_seq_lookup _ 0). exact Hi.
  - destruct Hm as [-> | ->].
    all: simpl run at 1; rewrite run_label by (simpl; auto); simpl.
    all: rewrite <- (app_nil_r pay); rewrite run_data by (simpl; auto); simpl.
    all: rewrite app_nil_r; eexists.
    all: split; [reflexivity|]; split; [reflexivity|]; split; [reflexivity|].
    all: intros i Hi; apply (write_seq_lookup _ 0); exact Hi.
Qed.

Lemma C3_no_capacity_check_witness :
  Forall not_label_end (repeat 97 101) /\ is_type_marker PACKET_CHAR /\
  Forall (fun b => b <> PACKET_END) (repeat 98 101) /\
  (exists s, SerialReceiveAndParsePacket ∅ ∅ (PACKET_START :: repeat 97 101) = Waiting s /\
     flag_ser_label s = true /\ length_label s = length (repeat 97 101) /\
     (forall i, (i < length (repeat 97 101))%nat ->
                buffer_label s !! i = repeat 97 101 !! i)) /\
  (exists s, SerialReceiveAndParsePacket ∅ ∅
               (PACKET_START :: repeat 97 101 ++ PACKET_CHAR :: repeat 98 101) = Waiting s /\
     flag_ser_data s = true /\ length_data s = length (repeat 98 101) /\
     (forall i, (i < length (repeat 98 101))%nat ->
                buffer_data s !! i = repeat 98 101 !! i)).
Proof.
  assert (Hl : Forall not_label_end (repeat 97 101))
    by (simpl; repeat constructor; unfold PACKET_INT, PACKET_CHAR; lia).
  assert (Hm : is_type_marker PACKET_CHAR) by (right; reflexivity).
  assert (Hp : Forall (fun b => b <> PACKET_END) (repeat 98 101))
    by (simpl; repeat constructor; unfold PACKET_END; lia).
  split; [exact Hl | split; [exact Hm | split; [exact Hp|]]].
  apply (C3_no_capacity_check ∅ ∅ _ _ _ Hl Hm Hp).
Defined.

(** ** C4 *)


Lemma step_idle_noise s b :
  flag_ser_label s = false -> flag_ser_data s = false -> b <> PACKET_START ->
  step s b = Continue (mkD false false (data_type s) (length_label s)
                         (length_data s) (buffer_label s) (buffer_data s)
                         (written s ++ input_error_notice b)).
Proof.
  intros Hl Hd Hb. unfold step. rewrite Hl, Hd.
  rewrite (proj2 (Z.eqb_neq b PACKET_START) Hb). reflexivity.
Qed.

(** C4: for any two bytes X, Y other than START, decoding
    X Y '<' "Ts" '|' 00 00 00 05 '>' writes exactly the notice for X and
    then the notice for Y (each an "Err" packet followed by the offending
    byte), then returns the packet with label "Ts", marker '|' and payload
    00 00 00 05 (the encoding of 5), consuming the whole stream. *)
Theorem C4_noise_then_packet (X Y : Z) (bl bd : gmap nat Z) :
  X <> PACKET_START -> Y <> PACKET_START ->
  exists s,
    SerialReceiveAndParsePacket bl bd
      ([X; Y; PACKET_START; 84; 115; PACKET_INT; 0; 0; 0; 5; PACKET_END]) = Returned s [] /\
    written s = input_error_notice X ++ input_error_notice Y /\
    packet_of s = (PACKET_INT, [84; 115], SerialWriteLongInt 5).
Proof.
  intros HX HY. unfold SerialReceiveAndParsePacket. rewrite run_cons.
  rewrite step_idle_noise by (simpl; auto). rewrite run_cons.
  rewrite step_idle_noise by (simpl; auto).
  destruct (run_frame
              (mkD false false 0 0 0 bl bd
                 (([] ++ input_error_notice X) ++ input_error_notice Y))
              [84; 115] PACKET_INT [0; 0; 0; 5] [])
    as (s & Hrun & Hpk & Hw & _).
  1, 2: reflexivity.
  - repeat constructor; unfold PACKET_INT, PACKET_CHAR; lia.
  - left; reflexivity.
  - repeat constructor; unfold PACKET_END; lia.
  - exists s. split; [exact Hrun|]. rewrite Hw. split; [reflexivity | exact Hpk].
Qed.

Lemma C4_noise_then_packet_witness :
  88 <> PACKET_START /\ 89 <> PACKET_START /\
  exists s,
    SerialReceiveAndParsePacket ∅ ∅
      ([88; 89; PACKET_START; 84; 115; PACKET_INT; 0; 0; 0; 5; PACKET_END]) = Returned s [] /\
    written s = input_error_notice 88 ++ input_error_notice 89 /\
    packet_of s = (PACKET_INT, [84; 115], SerialWriteLongInt 5).
Proof.
  assert (H1 : 88 <> PACKET_START) by (unfold PACKET_START; lia).
  assert (H2 : 89 <> PACKET_START) by (unfold PACKET_START; lia).
  split; [exact H1 | split; [exact H2 | apply (C4_noise_then_packet 88 89 ∅ ∅ H1 H2)]].
Defined.

(** ** C5 *)

(** C5: the bytes of [SerialSendInt "Ts" 0x12345678] decode, for any initial
    buffer contents, to label "Ts", marker '|' (SingleInt) and the payload
    bytes 12 34 56 78 (most significant first), with the data buffer
    terminated after them. *)
Theorem C5_single_int_roundtrip (bl bd : gmap nat Z) :
  exists s,
    SerialReceiveAndParsePacket bl bd (SerialSendInt [84; 115] 305419896) = Returned s [] /\
    packet_of s = (PACKET_INT, [84; 115], [18; 52; 86; 120]) /\
    buffer_data s !! 4%nat = Some 0.
Proof.
  unfold SerialReceiveAndParsePacket.
  replace (SerialSendInt [84; 115] 305419896)
    with ([PACKET_START] ++ [84; 115] ++ [PACKET_INT] ++ [18; 52; 86; 120]
            ++ [PACKET_END] ++ []) by reflexivity.
  destruct (run_frame (init_state bl bd) [84; 115] PACKET_INT [18; 52; 86; 120] [])
    as (s & Hrun & Hpk & _ & _ & Hterm).
  1, 2: reflexivity.
  - repeat constructor; unfold PACKET_INT, PACKET_CHAR; lia.
  - left; reflexivity.
  - repeat constructor; unfold PACKET_END; lia.
  - exists s. auto.
Qed.

(** ** C6 *)

(** C6: '<' '@' b '>' with a data byte [b] (any byte but END) decodes to the
    empty label, marker '@' (Char) and the one-byte payload [b]. *)
Theorem C6_empty_label_char (b : Z) (bl bd : gmap nat Z) :
  b <> PACKET_END ->
  exists s,
    SerialReceiveAndParsePacket bl bd [PACKET_START; PACKET_CHAR; b; PACKET_END]
      = Returned s [] /\
    packet_of s = (PACKET_CHAR, [], [b]) /\ buffer_label s !! 0%nat = Some 0.
Proof.
  intros Hb. unfold SerialReceiveAndParsePacket.
  destruct (run_frame (init_state bl bd) [] PACKET_CHAR [b] [])
    as (s & Hrun & Hpk & _ & Hlab & _).
  1, 2: reflexivity.
  - constructor.
  - right; reflexivity.
  - repeat constructor; exact Hb.
  - exists s. auto.
Qed.

Lemma C6_empty_label_char_witness :
  120 <> PACKET_END /\
  exists s,
    SerialReceiveAndParsePacket ∅ ∅ [PACKET_START; PACKET_CHAR; 120; PACKET_END]
      = Returned s [] /\
    packet_of s = (PACKET_CHAR, [], [120]) /\ buffer_label s !! 0%nat = Some 0.
Proof.
  assert (H : 120 <> PACKET_END) by (unfold PACKET_END; lia).
  split; [exact H | apply (C6_empty_label_char 120 ∅ ∅ H)].
Defined.

(** ** C7 *)

Lemma hs_loop_byte arr b l out :
  hs_loop arr (b :: l) out =
  if Z.eqb b chr_P then HsReady l arr out else hs_loop arr l out.
Proof. destruct arr; reflexivity. Qed.

Lemma hs_loop_empty_nil out : hs_loop [] [] out = HsPending (out ++ [chr_A]).
Proof. reflexivity. Qed.

Lemma hs_loop_empty_cons c arr out :
  hs_loop (c :: arr) [] out = hs_loop arr c (out ++ [chr_A]).
Proof. reflexivity. Qed.

Lemma hs_loop_spec arr : forall buf out,
  Forall (fun x => x = chr_A) out ->
  (exists pre rest later out',
      buf ++ concat arr = pre ++ chr_P :: rest ++ concat later /\
      ~ In chr_P pre /\ hs_loop arr buf out = HsReady rest later out' /\
      Forall (fun x => x = chr_A) out') \/
  (~ In chr_P (buf ++ concat arr) /\
   exists out', hs_loop arr buf out = HsPending out' /\
                Forall (fun x => x = chr_A) out').
Proof.
  induction arr as [|c arr IHarr]; intros buf; induction buf as [|b buf IHbuf];
    intros out Hout.
  - right. split; [simpl; tauto|]. exists (out ++ [chr_A]).
    split; [reflexivity | apply Forall_app; split; auto].
  - rewrite hs_loop_byte. destruct (Z.eqb_spec b chr_P) as [->|Hne].
    + left. exists [], buf, [], out. simpl. rewrite app_nil_r.
      repeat split; auto.
    + destruct (IHbuf out Hout) as [(pre & rest & later & out' & Heq & Hn & Hr & Ho)
                                   | (Hn & out' & Hr & Ho)].
      * left. exists (b :: pre), rest, later, out'. simpl in *. rewrite Heq.
        repeat split; auto. intros [H|H]; [congruence | tauto].
      * right. split; [simpl; intros [H|H]; [congruence | tauto]|].
        exists out'. split; assumption.
  - rewrite hs_loop_empty_cons.
    assert (Hout' : Forall (fun x => x = chr_A) (out ++ [chr_A]))
      by (apply Forall_app; split; auto).
    destruct (IHarr c (out ++ [chr_A]) Hout') as
        [(pre & rest & later & out' & Heq & Hn & Hr & Ho) | (Hn & out' & Hr & Ho)].
    + left. exists pre, rest, later, out'. simpl. repeat split; auto.
    + right. split; [simpl; exact Hn|]. exists out'. split; assumption.
  - rewrite hs_loop_byte. destruct (Z.eqb_spec b chr_P) as [->|Hne].
    + left. exists [], buf, (c :: arr), out. simpl. repeat split; auto.
    + destruct (IHbuf out Hout) as [(pre & rest & later & out' & Heq & Hn & Hr & Ho)
                                   | (Hn & out' & Hr & Ho)].
      * left. exists (b :: pre), rest, later, out'. simpl in *. rewrite Heq.
        repeat split; auto. intros [H|H]; [congruence | tauto].
      * right. split; [simpl; intros [H|H]; [congruence | tauto]|].
        exists out'. split; assumption.
Qed.

(** C7: for every channel history (bytes buffered at the call, then chunks
    arriving while polling), [SerialHandshake] either completes right after
    consuming the first 'P' of the incoming bytes, every earlier byte being
    consumed and none of them 'P', with the bytes after that 'P' left
    unread; or no 'P' has arrived and it is still waiting. It writes only
    'A' bytes and has no other outcome. *)
Theorem C7_handshake_completes_at_first_P (buf0 : list Z) (arr : list (list Z)) :
  (exists pre rest later out,
      buf0 ++ concat arr = pre ++ chr_P :: rest ++ concat later /\
      ~ In chr_P pre /\ SerialHandshake buf0 arr = HsReady rest later out /\
      Forall (fun x => x = chr_A) out) \/
  (~ In chr_P (buf0 ++ concat arr) /\
   exists out, SerialHandshake buf0 arr = HsPending out /\
               Forall (fun x => x = chr_A) out).
Proof. apply hs_loop_spec. constructor. Qed.

(** ** C8 *)

Lemma read_cells_insert_ge m n k x :
  (n <= k)%nat -> read_cells (<[k := x]> m) n = read_cells m n.
Proof.
  intros Hk. unfold read_cells. apply map_ext_in. intros i Hi.
  apply in_seq in Hi. rewrite lookup_insert_ne by lia. reflexivity.
Qed.

Lemma read_cells_insert_at m n x :
  read_cells (<[n := x]> m) (S n) = read_cells m n ++ [x].
Proof.
  unfold read_cells. rewrite seq_S, map_app. simpl.
  rewrite lookup_insert_eq. simpl. f_equal.
  apply read_cells_insert_ge. lia.
Qed.

Lemma step_agree s1 s2 b :
  agree s1 s2 ->
  match step s1 b, step s2 b with
  | Continue a1, Continue a2 | Return a1, Return a2 => agree a1 a2
  | _, _ => False
  end.
Proof.
  intros (Hfl & Hfd & Hdt & Hll & Hld & Hw & Hrl & Hrd).
  destruct s1 as [fl1 fd1 dt1 ll1 ld1 bl1 bd1 w1],
           s2 as [fl2 fd2 dt2 ll2 ld2 bl2 bd2 w2]; simpl in *; subst.
  unfold step; simpl.
  destruct fl2; [destruct (Z.eqb b PACKET_INT || Z.eqb b PACKET_CHAR)%bool|];
    [| | destruct fd2; [destruct (Z.eqb b PACKET_END)|
                        destruct (Z.eqb b PACKET_START)]];
    unfold agree; simpl; repeat split; try reflexivity;
    rewrite ?read_cells_insert_ge by lia; rewrite ?read_cells_insert_at;
    congruence.
Qed.

Lemma run_agree l : forall s1 s2,
  agree s1 s2 ->
  match run s1 l, run s2 l with
  | Waiting a1, Waiting a2 => agree a1 a2
  | Returned a1 r1, Returned a2 r2 => agree a1 a2 /\ r1 = r2
  | _, _ => False
  end.
Proof.
  induction l as [|b l IH]; intros s1 s2 H; simpl; [exact H|].
  pose proof (step_agree s1 s2 b H) as Hs.
  destruct (step s1 b), (step s2 b); try contradiction.
  - apply IH. exact Hs.
  - split; [exact Hs | reflexivity].
Qed.

Lemma agree_packet s1 s2 :
  agree s1 s2 -> packet_of s1 = packet_of s2 /\ written s1 = written s2.
Proof.
  intros (_ & _ & Hdt & _ & _ & Hw & Hrl & Hrd). unfold packet_of.
  rewrite Hdt, Hrl, Hrd. auto.
Qed.

(** C8: the caller's sequence of decoded packets (returned type, label,
    payload) and of bytes written per call, over any byte stream and any
    number of calls, is the same for any two initial contents of the
    caller's label and data buffers: the decoder is a function of the
    stream alone. *)
Theorem C8_decoder_deterministic (fuel : nat) (l : list Z)
    (bl1 bd1 bl2 bd2 : gmap nat Z) :
  decode_all fuel bl1 bd1 l = decode_all fuel bl2 bd2 l.
Proof.
  revert l bl1 bd1 bl2 bd2. induction fuel as [|fuel IH]; intros l bl1 bd1 bl2 bd2;
    simpl; [reflexivity|].
  assert (H0 : agree (init_state bl1 bd1) (init_state bl2 bd2))
    by (unfold agree; simpl; repeat split).
  pose proof (run_agree l _ _ H0) as Hr. unfold SerialReceiveAndParsePacket.
  destruct (run (init_state bl1 bd1) l) as [a1 r1|a1],
           (run (init_state bl2 bd2) l) as [a2 r2|a2]; try contradiction.
  - destruct Hr as [Ha ->]. destruct (agree_packet a1 a2 Ha) as [-> ->].
    f_equal. apply IH.
  - reflexivity.
Qed.

(** ** C9 *)

(** C9: [SerialSendErrorText msg] writes START, 'E' 'r' 'r', '@', the bytes
    of [msg], END: the spec's [EncodeChar] with label "Err" and payload
    [msg], and, for a one-byte message, exactly the bytes of the source's
    [SerialSendChar "Err"]. *)
Theorem C9_error_is_err_char (msg : list Z) :
  SerialSendErrorText msg = [PACKET_START; 69; 114; 114; PACKET_CHAR] ++ msg ++ [PACKET_END] /\
  SerialSendErrorText msg = EncodeChar_spec str_Err msg /\
  (forall c, SerialSendErrorText [c] = SerialSendChar str_Err c).
Proof. repeat split. Qed.

(** ** C10 *)


(** The shape of the bytes consumed by a call that returned, from each of
    the three decoder modes. *)
Lemma run_returned_shape l : forall s s' rest,
  run s l = Returned s' rest ->
  (flag_ser_label s = false -> flag_ser_data s = true ->
     data_type s' = data_type s /\
     exists pay, l = pay ++ [PACKET_END] ++ rest /\
                 Forall (fun b => b <> PACKET_END) pay) /\
  (flag_ser_label s = true ->
     is_type_marker (data_type s') /\
     exists lab pay, l = lab ++ [data_type s'] ++ pay ++ [PACKET_END] ++ rest /\
       Forall not_label_end lab /\ Forall (fun b => b <> PACKET_END) pay) /\
  (flag_ser_label s = false -> flag_ser_data s = false ->
     is_type_marker (data_type s') /\
     exists pre lab pay,
       l = pre ++ [PACKET_START] ++ lab ++ [data_type s'] ++ pay ++ [PACKET_END] ++ rest /\
       ~ In PACKET_START pre /\
       Forall not_label_end lab /\ Forall (fun b => b <> PACKET_END) pay).
Proof.
  induction l as [|b l IH]; intros s s' rest Hrun; [discriminate|].
  rewrite run_cons in Hrun.
  destruct s as [fl fd dt ll ld bl bd w]. unfold step in Hrun; simpl in Hrun.
  destruct fl.
  - (* collecting the label *)
    split; [discriminate|]. split; [|discriminate]. intros _.
    destruct (Z.eqb b PACKET_INT || Z.eqb b PACKET_CHAR)%bool eqn:Hb.
    + destruct (proj1 (IH _ _ _ Hrun) eq_refl eq_refl) as [Hdt (pay & -> & Hp)].
      simpl in Hdt. rewrite Hdt. split; [apply orb_markers; exact Hb|].
      exists [], pay. auto.
    + destruct (proj1 (proj2 (IH _ _ _ Hrun)) eq_refl) as (Hm & lab & pay & -> & Hl & Hp).
      split; [exact Hm|]. exists (b :: lab), pay.
      split; [reflexivity|]. split; [constructor; [apply orb_markers_false|]|]; auto.
  - destruct fd.
    + (* collecting the payload *)
      split; [|split; [discriminate | intros _; discriminate]]. intros _ _.
      destruct (Z.eqb_spec b PACKET_END) as [->|Hne].
      * injection Hrun as <- <-. simpl. split; [reflexivity|].
        exists []. auto.
      * destruct (proj1 (IH _ _ _ Hrun) eq_refl eq_refl) as [Hdt (pay & -> & Hp)].
        split; [exact Hdt|]. exists (b :: pay). auto.
    + (* idle *)
      split; [intros _; discriminate|]. split; [discriminate|]. intros _ _.
      destruct (Z.eqb_spec b PACKET_START) as [->|Hne].
      * destruct (proj1 (proj2 (IH _ _ _ Hrun)) eq_refl)
          as (Hm & lab & pay & -> & Hl & Hp).
        split; [exact Hm|]. exists [], lab, pay. simpl. auto.
      * destruct (proj2 (proj2 (IH _ _ _ Hrun)) eq_refl eq_refl)
          as (Hm & pre & lab & pay & -> & Hn & Hl & Hp).
        split; [exact Hm|]. exists (b :: pre), lab, pay.
        split; [reflexivity|]. split; [|auto].
        simpl. intros [H|H]; [congruence | tauto].
Qed.

(** C10: when a call returns, the value it returns is the type-marker byte
    that ended the label of the packet just read, and it is '|' or '@',
    never '~': the consumed bytes are noise without '<', START, a label
    with no '|' or '@' (so a '~' in it is an ordinary label byte), the
    returned marker, a payload without '>', and END. A '~' seen while
    collecting the label is appended to the label buffer. *)
Theorem C10_returned_type_marker (bl bd : gmap nat Z) (l rest : list Z) (s : dstate) :
  SerialReceiveAndParsePacket bl bd l = Returned s rest ->
  (data_type s = PACKET_INT \/ data_type s = PACKET_CHAR) /\
  data_type s <> PACKET_INT2 /\
  (exists pre lab pay,
     l = pre ++ [PACKET_START] ++ lab ++ [data_type s] ++ pay ++ [PACKET_END] ++ rest /\
     ~ In PACKET_START pre /\
     Forall not_label_end lab /\ Forall (fun b => b <> PACKET_END) pay) /\
  (forall s0, flag_ser_label s0 = true ->
     step s0 PACKET_INT2 =
       Continue (mkD true (flag_ser_data s0) (data_type s0) (S (length_label s0))
                   (length_data s0) (<[length_label s0 := PACKET_INT2]> (buffer_label s0))
                   (buffer_data s0) (written s0))).
Proof.
  intros Hrun.
  destruct (proj2 (proj2 (run_returned_shape l _ _ _ Hrun)) eq_refl eq_refl)
    as (Hm & Hshape).
  split; [exact Hm|]. split.
  { destruct Hm as [-> | ->]; unfold PACKET_INT, PACKET_CHAR, PACKET_INT2; lia. }
  split; [exact Hshape|].
  intros s0 H0. unfold step. rewrite H0. reflexivity.
Qed.

Lemma C10_returned_type_marker_witness :
  exists s, SerialReceiveAndParsePacket ∅ ∅ [60; 126; 124; 7; 62; 1] = Returned s [1] /\
  (data_type s = PACKET_INT \/ data_type s = PACKET_CHAR) /\
  data_type s <> PACKET_INT2.
Proof.
  eexists. split; [vm_compute; reflexivity|].
  destruct (C10_returned_type_marker ∅ ∅ [60; 126; 124; 7; 62; 1] [1] _
              ltac:(vm_compute; reflexivity)) as (H1 & H2 & _).
  split; [exact H1 | exact H2].
Defined.

(* ------------------------------------------------------------------ *)
(** * Further properties of the library *)

(** ** Integer serialisation *)

Lemma land_255_mod x : Z.land x 255 = x mod 256.
Proof. change 255 with (Z.ones 8). rewrite Z.land_ones by lia. reflexivity. Qed.

(** X1: for every 32-bit unsigned value [v], [SerialWriteLongInt v] is four
    bytes in 0..255, most significant first, whose big-endian value is [v]. *)
Theorem X1_write_long_int_big_endian (v : Z) :
  0 <= v < 2 ^ 32 ->
  exists b0 b1 b2 b3, SerialWriteLongInt v = [b0; b1; b2; b3] /\
    Forall (fun b => 0 <= b < 256) [b0; b1; b2; b3] /\
    v = b0 * 2 ^ 24 + b1 * 2 ^ 16 + b2 * 2 ^ 8 + b3.
Proof.
  intros Hv. unfold SerialWriteLongInt. rewrite !land_255_mod, !Z.shiftr_div_pow2 by lia.
  do 4 eexists. split; [reflexivity|].
  split; [repeat constructor; apply Z.mod_pos_bound; lia|].
  change (2 ^ 24) with 16777216 in *. change (2 ^ 16) with 65536.
  change (2 ^ 8) with 256. change (2 ^ 32) with 4294967296 in Hv.
  replace (v / 65536) with (v / 256 / 256)
    by (rewrite Z.div_div by lia; reflexivity).
  replace (v / 16777216) with (v / 256 / 256 / 256)
    by (rewrite !Z.div_div by lia; reflexivity).
  assert (H3 : v / 256 / 256 / 256 < 256)
    by (rewrite !Z.div_div by lia; apply Z.div_lt_upper_bound; lia).
  assert (H3' : 0 <= v / 256 / 256 / 256)
    by (apply Z.div_pos; [apply Z.div_pos; [apply Z.div_pos|]|]; lia).
  rewrite (Z.mod_small (v / 256 / 256 / 256)) by lia.
  pose proof (Z.div_mod v 256 ltac:(lia)).
  pose proof (Z.div_mod (v / 256) 256 ltac:(lia)).
  pose proof (Z.div_mod (v / 256 / 256) 256 ltac:(lia)).
  lia.
Qed.

Lemma X1_write_long_int_big_endian_witness :
  0 <= 4294967295 < 2 ^ 32 /\
  exists b0 b1 b2 b3, SerialWriteLongInt 4294967295 = [b0; b1; b2; b3] /\
    Forall (fun b => 0 <= b < 256) [b0; b1; b2; b3] /\
    4294967295 = b0 * 2 ^ 24 + b1 * 2 ^ 16 + b2 * 2 ^ 8 + b3.
Proof.
  assert (H : 0 <= 4294967295 < 2 ^ 32) by lia.
  split; [exact H | apply (X1_write_long_int_big_endian 4294967295 H)].
Defined.

(** X2: on 32-bit values [SerialWriteLongInt] is injective: two values
    that serialise to the same four bytes are equal. *)
Theorem X2_write_long_int_injective (v w : Z) :
  0 <= v < 2 ^ 32 -> 0 <= w < 2 ^ 32 ->
  SerialWriteLongInt v = SerialWriteLongInt w -> v = w.
Proof.
  intros Hv Hw Heq.
  destruct (X1_write_long_int_big_endian v Hv) as (a0 & a1 & a2 & a3 & Ha & _ & ->).
  destruct (X1_write_long_int_big_endian w Hw) as (b0 & b1 & b2 & b3 & Hb & _ & ->).
  rewrite Ha, Hb in Heq. injection Heq as -> -> -> ->. reflexivity.
Qed.

Lemma X2_write_long_int_injective_witness :
  0 <= 7 < 2 ^ 32 /\ 0 <= 7 < 2 ^ 32 /\
  SerialWriteLongInt 7 = SerialWriteLongInt 7 /\ 7 = 7.
Proof.
  assert (H : 0 <= 7 < 2 ^ 32) by lia.
  split; [exact H | split; [exact H | split; [reflexivity|]]].
  apply (X2_write_long_int_injective 7 7 H H eq_refl).
Defined.


(** ** Decoder: noise, streams of packets, incomplete packets *)

Lemma run_noise s noise :
  flag_ser_label s = false -> flag_ser_data s = false ->
  ~ In PACKET_START noise ->
  run s noise =
  Waiting (mkD false false (data_type s) (length_label s) (length_data s)
             (buffer_label s) (buffer_data s)
             (written s ++ concat (map input_error_notice noise))).
Proof.
  revert s. induction noise as [|b noise IH]; intros s Hl Hd Hn.
  - destruct s; simpl in *; subst; rewrite app_nil_r; reflexivity.
  - rewrite run_cons, step_idle_noise by (auto; intros ->; apply Hn; left; reflexivity).
    rewrite IH by (simpl; auto; intros H; apply Hn; right; exact H).
    simpl. rewrite <- app_assoc. reflexivity.
Qed.

(** X4: bytes other than '<' arriving before a packet are each answered
    with an error notice (the "Err" packet and the byte echoed), in order,
    and do not disturb the packet that follows: the call returns it intact
    with the bytes after its END left unread. *)
Theorem X4_noise_then_packet (noise t : list Z) (p : packet) (bl bd : gmap nat Z) :
  ~ In PACKET_START noise -> decodable p ->
  exists s, SerialReceiveAndParsePacket bl bd (noise ++ encode p ++ t) = Returned s t /\
    written s = concat (map input_error_notice noise) /\
    packet_of s = (marker_of p, label_of p, payload_of p).
Proof.
  intros Hn (Hp & Hl & Hpay). unfold SerialReceiveAndParsePacket.
  rewrite run_app, run_noise by (simpl; auto).
  rewrite encode_frame, <- !app_assoc.
  destruct (run_frame (mkD false false 0 0 0 bl bd
                         ([] ++ concat (map input_error_notice noise)))
              (label_of p) (marker_of p) (payload_of p) t)
    as (s & Hrun & Hpk & Hw & _); try reflexivity; try assumption.
  - destruct p; simpl in *; try discriminate; auto.
  - exists s. split; [exact Hrun|]. split; [exact Hw | exact Hpk].
Qed.

Lemma X4_noise_then_packet_witness :
  ~ In PACKET_START [62; 10] /\ decodable (PChar [82] 33) /\
  exists s, SerialReceiveAndParsePacket ∅ ∅ ([62; 10] ++ encode (PChar [82] 33) ++ [])
            = Returned s [] /\
    written s = concat (map input_error_notice [62; 10]) /\
    packet_of s = (marker_of (PChar [82] 33), label_of (PChar [82] 33),
                   payload_of (PChar [82] 33)).
Proof.
  assert (Hn : ~ In PACKET_START [62; 10])
    by (simpl; unfold PACKET_START; lia).
  assert (Hd : decodable (PChar [82] 33)).
  { split; [reflexivity|]. split; repeat constructor; unfold PACKET_INT, PACKET_CHAR, PACKET_END; lia. }
  split; [exact Hn | split; [exact Hd | apply (X4_noise_then_packet _ [] _ ∅ ∅ Hn Hd)]].
Defined.

(** X5: a caller that calls the decoder once per packet on the
    concatenated encodings of decodable packets gets every packet back, in
    order, with no error output, whatever its buffers held before. *)
Theorem X5_decode_packet_stream (ps : list packet) (bl bd : gmap nat Z) :
  Forall decodable ps ->
  decode_all (length ps) bl bd (concat (map encode ps)) =
  map (fun p => (marker_of p, label_of p, payload_of p, @nil Z)) ps.
Proof.
  revert bl bd. induction ps as [|p ps IH]; intros bl bd Hps; [reflexivity|].
  inversion Hps as [|? ? (Hp & Hl & Hpay) Hps']; subst.
  simpl. unfold SerialReceiveAndParsePacket.
  rewrite encode_frame, <- !app_assoc.
  destruct (run_frame (init_state bl bd) (label_of p) (marker_of p) (payload_of p)
              (concat (map encode ps)))
    as (s & Hrun & Hpk & Hw & _); try reflexivity; try assumption.
  - destruct p; simpl in *; try discriminate; auto.
  - rewrite Hrun, Hpk, Hw. simpl. f_equal. apply IH. exact Hps'.
Qed.

Lemma X5_decode_packet_stream_witness :
  Forall decodable [PSingleInt [84] 9; PCharPair [] 65 66] /\
  decode_all 2 ∅ ∅ (concat (map encode [PSingleInt [84] 9; PCharPair [] 65 66])) =
  map (fun p => (marker_of p, label_of p, payload_of p, @nil Z))
      [PSingleInt [84] 9; PCharPair [] 65 66].
Proof.
  assert (H : Forall decodable [PSingleInt [84] 9; PCharPair [] 65 66]).
  { repeat constructor; unfold PACKET_INT, PACKET_CHAR, PACKET_END; try lia;
      vm_compute; congruence. }
  split; [exact H | apply (X5_decode_packet_stream _ ∅ ∅ H)].
Defined.

(** X6: the decoder never returns before the END byte of a decodable
    packet has arrived: on every strict prefix of its encoding the call is
    still waiting for bytes. *)
Theorem X6_prefix_waits (p : packet) (k : nat) (bl bd : gmap nat Z) :
  decodable p -> (k < length (encode p))%nat ->
  exists s, SerialReceiveAndParsePacket bl bd (firstn k (encode p)) = Waiting s.
Proof.
  intros (Hp & Hl & Hpay) Hk.
  destruct (run_frame (init_state bl bd) (label_of p) (marker_of p) (payload_of p) [])
    as (s & Hrun & _); try reflexivity; try assumption.
  { destruct p; simpl in *; try discriminate; auto. }
  rewrite app_nil_r, <- encode_frame in Hrun.
  unfold SerialReceiveAndParsePacket.
  destruct (run (init_state bl bd) (firstn k (encode p))) as [s' r|s'] eqn:Hfirst.
  - exfalso. rewrite <- (firstn_skipn k (encode p)) in Hrun.
    rewrite run_app, Hfirst in Hrun. injection Hrun as _ Hr.
    apply app_eq_nil in Hr as [_ Hr].
    apply (f_equal (@length Z)) in Hr. rewrite length_skipn in Hr. simpl in Hr. lia.
  - exists s'. reflexivity.
Qed.

Lemma X6_prefix_waits_witness :
  decodable (PSingleInt [84] 9) /\ lt 7 (length (encode (PSingleInt [84] 9))) /\
  exists s, SerialReceiveAndParsePacket ∅ ∅ (firstn 7 (encode (PSingleInt [84] 9))) = Waiting s.
Proof.
  assert (H : decodable (PSingleInt [84] 9)).
  { split; [reflexivity|]. vm_compute. split; repeat constructor; congruence. }
  assert (Hk : lt 7 (length (encode (PSingleInt [84] 9)))) by (vm_compute; lia).
  split; [exact H | split; [exact Hk | apply (X6_prefix_waits _ 7 ∅ ∅ H Hk)]].
Defined.

(** X7: a second '<' while the label is being collected does not restart
    the packet: it is kept as a label byte, and the packet returned has the
    bytes from both sides of it as its label. *)
Theorem X7_start_inside_label_kept (lab1 lab2 pay t : list Z) (m : Z) (bl bd : gmap nat Z) :
  Forall not_label_end lab1 -> Forall not_label_end lab2 -> is_type_marker m ->
  Forall (fun b => b <> PACKET_END) pay ->
  exists s, SerialReceiveAndParsePacket bl bd
      ([PACKET_START] ++ lab1 ++ [PACKET_START] ++ lab2 ++ [m] ++ pay ++ [PACKET_END] ++ t)
      = Returned s t /\
    packet_of s = (m, lab1 ++ [PACKET_START] ++ lab2, pay).
Proof.
  intros H1 H2 Hm Hp.
  destruct (run_frame (init_state bl bd) (lab1 ++ [PACKET_START] ++ lab2) m pay t)
    as (s & Hrun & Hpk & _); try reflexivity; try assumption.
  - apply Forall_app; split; [exact H1|]. constructor; [|exact H2].
    unfold not_label_end, PACKET_START, PACKET_INT, PACKET_CHAR; lia.
  - exists s. rewrite <- !app_assoc in Hrun. split; [exact Hrun | exact Hpk].
Qed.

Lemma X7_start_inside_label_kept_witness :
  Forall not_label_end [97] /\ Forall not_label_end [84] /\ is_type_marker PACKET_CHAR /\
  Forall (fun b => b <> PACKET_END) [49] /\
  exists s, SerialReceiveAndParsePacket ∅ ∅
      ([PACKET_START] ++ [97] ++ [PACKET_START] ++ [84] ++ [PACKET_CHAR] ++ [49]
         ++ [PACKET_END] ++ []) = Returned s [] /\
    packet_of s = (PACKET_CHAR, [97] ++ [PACKET_START] ++ [84], [49]).
Proof.
  assert (H1 : Forall not_label_end [97])
    by (repeat constructor; unfold PACKET_INT, PACKET_CHAR; lia).
  assert (H2 : Forall not_label_end [84])
    by (repeat constructor; unfold PACKET_INT, PACKET_CHAR; lia).
  assert (Hm : is_type_marker PACKET_CHAR) by (right; reflexivity).
  assert (Hp : Forall (fun b => b <> PACKET_END) [49])
    by (repeat constructor; unfold PACKET_END; lia).
  split; [exact H1 | split; [exact H2 | split; [exact Hm | split; [exact Hp|]]]].
  apply (X7_start_inside_label_kept _ _ _ [] _ ∅ ∅ H1 H2 Hm Hp).
Defined.

Lemma write_seq_ge m n l j :
  (n + length l <= j)%nat -> write_seq m n l !! j = m !! j.
Proof.
  revert m n. induction l as [|x l IH]; intros m n Hj; simpl in *; [reflexivity|].
  rewrite IH by lia. apply lookup_insert_ne. lia.
Qed.

(** X8: reading a packet leaves every cell of the caller's label buffer
    after the label's terminator, and every cell of the data buffer after
    the payload's terminator, as the caller had them. *)
Theorem X8_cells_past_terminator_untouched (p : packet) (t : list Z) (bl bd : gmap nat Z) :
  decodable p ->
  exists s, SerialReceiveAndParsePacket bl bd (encode p ++ t) = Returned s t /\
    (forall j, (length (label_of p) < j)%nat -> buffer_label s !! j = bl !! j) /\
    (forall j, (length (payload_of p) < j)%nat -> buffer_data s !! j = bd !! j).
Proof.
  intros (Hp & Hl & Hpay).
  assert (Hm : (Z.eqb (marker_of p) PACKET_INT || Z.eqb (marker_of p) PACKET_CHAR)%bool = true)
    by (destruct p; simpl in *; try discriminate; reflexivity).
  unfold SerialReceiveAndParsePacket. rewrite encode_frame, <- !app_assoc.
  simpl. rewrite run_label by (simpl; auto). simpl.
  unfold step at 1; simpl. rewrite Hm.
  rewrite run_data by (simpl; auto). simpl.
  eexists. split; [reflexivity|]. split; intros j Hj.
  - simpl. rewrite lookup_insert_ne by lia. apply write_seq_ge. lia.
  - simpl. rewrite lookup_insert_ne by lia. apply write_seq_ge. lia.
Qed.

Lemma X8_cells_past_terminator_untouched_witness :
  decodable (PChar [84] 49) /\
  exists s, SerialReceiveAndParsePacket {[5%nat := 7]} {[3%nat := 9]}
              (encode (PChar [84] 49) ++ []) = Returned s [] /\
    (forall j, lt (length (label_of (PChar [84] 49))) j ->
               buffer_label s !! j = ({[5%nat := 7]} : gmap nat Z) !! j) /\
    (forall j, lt (length (payload_of (PChar [84] 49))) j ->
               buffer_data s !! j = ({[3%nat := 9]} : gmap nat Z) !! j).
Proof.
  assert (H : decodable (PChar [84] 49)).
  { split; [reflexivity|]. vm_compute. split; repeat constructor; congruence. }
  split; [exact H | apply (X8_cells_past_terminator_untouched _ [] _ _ H)].
Defined.

(** ** CopyCharArray *)

Lemma copy_loop_spec (src : gmap nat Z) (n : nat) :
  forall k i tgt,
  (i <= n)%nat ->
  (forall j, (i <= j < n)%nat -> exists c, src !! j = Some c /\ c <> 0) ->
  ((i + k <= n)%nat \/ src !! n = Some 0) ->
  copy_loop src tgt i k =
  Some (write_seq tgt i (map (fun j => default 0 (src !! j)) (seq i (min k (n - i)))),
        (i + min k (n - i))%nat).
Proof.
  induction k as [|k IH]; intros i tgt Hi Hnz Hend; simpl.
  - rewrite Nat.add_0_r. reflexivity.
  - destruct (decide (i = n)) as [->|Hne].
    + destruct Hend as [Hend|Hend]; [lia|]. rewrite Hend. simpl.
      rewrite Nat.sub_diag. simpl. rewrite Nat.add_0_r. reflexivity.
    + destruct (Hnz i ltac:(lia)) as (c & Hc & Hc0). rewrite Hc.
      rewrite (proj2 (Z.eqb_neq c 0) Hc0).
      rewrite IH; [| lia | intros j Hj; apply Hnz; lia
                   | destruct Hend; [left; lia | right; assumption]].
      replace (n - i)%nat with (S (n - S i)) by lia.
      simpl. rewrite Hc. simpl. do 2 f_equal. lia.
Qed.

Lemma write_seq_cells (src : gmap nat Z) :
  forall k i j tgt, (i <= j < i + k)%nat ->
  (forall j', (i <= j' < i + k)%nat -> is_Some (src !! j')) ->
  write_seq tgt i (map (fun j => default 0 (src !! j)) (seq i k)) !! j = src !! j.
Proof.
  induction k as [|k IH]; intros i j tgt Hj Hs; [lia|]. simpl.
  destruct (decide (j = i)) as [->|Hne].
  - rewrite write_seq_lt by lia. rewrite lookup_insert_eq.
    destruct (Hs i ltac:(lia)) as [c Hc]. rewrite Hc. reflexivity.
  - apply IH; [lia | intros j' Hj'; apply Hs; lia].
Qed.

Lemma c_strlen_spec (m : gmap nat Z) (r : nat) :
  forall fuel i, (i <= r)%nat ->
  (forall j, (i <= j < r)%nat -> exists c, m !! j = Some c /\ c <> 0) ->
  m !! r = Some 0 -> (r - i < fuel)%nat ->
  c_strlen m i fuel = Some r.
Proof.
  induction fuel as [|fuel IH]; intros i Hi Hnz Hr Hf; [lia|]. simpl.
  destruct (decide (i = r)) as [->|Hne].
  - rewrite Hr. reflexivity.
  - destruct (Hnz i ltac:(lia)) as (c & Hc & Hc0). rewrite Hc.
    rewrite (proj2 (Z.eqb_neq c 0) Hc0).
    apply IH; try lia; auto. intros j Hj; apply Hnz; lia.
Qed.

Lemma size_gt_of_prefix (m : gmap nat Z) (r : nat) :
  (forall j, (j <= r)%nat -> is_Some (m !! j)) -> (r < size m)%nat.
Proof.
  intros H.
  assert (Hsub : (set_seq 0 (S r) : gset nat) ⊆ dom m).
  { intros x Hx. apply elem_of_set_seq in Hx. apply elem_of_dom, H. lia. }
  apply subseteq_size in Hsub. rewrite size_set_seq, size_dom in Hsub. lia.
Qed.

(** X9: when the source holds [n] non-NUL characters followed by a NUL (or
    at least [max_num_data] readable non-NUL characters), [CopyCharArray]
    copies the first [r = min n max_num_data] of them into the target,
    writes the terminating NUL at index [r] and returns [r]: the result is
    the source string truncated to [max_num_data] characters. *)
Theorem X9_copy_char_array_truncates (src tgt : gmap nat Z) (max_num_data : Z) (n : nat) :
  (forall j, (j < n)%nat -> exists c, src !! j = Some c /\ c <> 0) ->
  ((Z.to_nat max_num_data <= n)%nat \/ src !! n = Some 0) ->
  exists t', CopyCharArray src tgt max_num_data =
             Some (t', Z.of_nat (min n (Z.to_nat max_num_data))) /\
    read_cells t' (min n (Z.to_nat max_num_data)) =
      read_cells src (min n (Z.to_nat max_num_data)) /\
    t' !! min n (Z.to_nat max_num_data) = Some 0.
Proof.
  intros Hnz Hend.
  set (r := min n (Z.to_nat max_num_data)).
  set (L := map (fun j => default 0 (src !! j)) (seq 0 r)).
  assert (HL : length L = r) by (subst L; rewrite length_map, length_seq; reflexivity).
  unfold CopyCharArray.
  rewrite (copy_loop_spec src n) by (try lia; auto; intros j Hj; apply Hnz; lia).
  rewrite Nat.sub_0_r, Nat.add_0_l, (Nat.min_comm (Z.to_nat max_num_data) n).
  fold r. fold L. cbv beta iota zeta.
  assert (Hcell : forall j, (j < r)%nat -> <[r := 0]> (write_seq tgt 0 L) !! j = src !! j).
  { intros j Hj. rewrite lookup_insert_ne by lia. subst L.
    apply write_seq_cells; [lia|]. intros j' Hj'.
    destruct (Hnz j' ltac:(lia)) as (c & Hc & _). rewrite Hc. eexists; reflexivity. }
  rewrite (c_strlen_spec _ r).
  - eexists. split; [reflexivity|]. split.
    + rewrite <- HL at 1 2. rewrite read_cells_terminated. subst L. reflexivity.
    + apply lookup_insert_eq.
  - lia.
  - intros j Hj. rewrite Hcell by lia. apply Hnz. lia.
  - apply lookup_insert_eq.
  - apply Nat.lt_succ_r, Nat.lt_le_incl, size_gt_of_prefix.
    intros j Hj. destruct (decide (j = r)) as [->|Hne].
    + rewrite lookup_insert_eq. eexists; reflexivity.
    + rewrite Hcell by lia. destruct (Hnz j ltac:(lia)) as (c & Hc & _).
      rewrite Hc. eexists; reflexivity.
Qed.

Lemma X9_copy_char_array_truncates_witness :
  (forall j, (j < 3)%nat ->
     exists c, ({[0%nat := 72; 1%nat := 105; 2%nat := 33; 3%nat := 0]} : gmap nat Z) !! j
               = Some c /\ c <> 0) /\
  ((Z.to_nat 2 <= 3)%nat \/
   ({[0%nat := 72; 1%nat := 105; 2%nat := 33; 3%nat := 0]} : gmap nat Z) !! 3%nat = Some 0) /\
  exists t', CopyCharArray {[0%nat := 72; 1%nat := 105; 2%nat := 33; 3%nat := 0]} ∅ 2 =
             Some (t', Z.of_nat (min 3 (Z.to_nat 2))) /\
    read_cells t' (min 3 (Z.to_nat 2)) =
      read_cells {[0%nat := 72; 1%nat := 105; 2%nat := 33; 3%nat := 0]} (min 3 (Z.to_nat 2)) /\
    t' !! min 3 (Z.to_nat 2) = Some 0.
Proof.
  assert (Hnz : forall j, (j < 3)%nat ->
     exists c, ({[0%nat := 72; 1%nat := 105; 2%nat := 33; 3%nat := 0]} : gmap nat Z) !! j
               = Some c /\ c <> 0).
  { intros j Hj. destruct j as [|[|[|j]]]; [ | | | lia];
      (eexists; split; [reflexivity | discriminate]). }
  assert (Hend : (Z.to_nat 2 <= 3)%nat \/
     ({[0%nat := 72; 1%nat := 105; 2%nat := 33; 3%nat := 0]} : gmap nat Z) !! 3%nat = Some 0)
    by (left; simpl; lia).
  split; [exact Hnz | split; [exact Hend|]].
  apply (X9_copy_char_array_truncates _ ∅ 2 3 Hnz Hend).
Defined.

(** X10: with [max_num_data <= 0] the copy loop does not run:
    [CopyCharArray] reads nothing from the source (which may be any array,
    even an empty one), stores a NUL at index 0 of the target and returns
    0. *)
Theorem X10_copy_char_array_nonpositive_max (src tgt : gmap nat Z) (max_num_data : Z) :
  max_num_data <= 0 ->
  CopyCharArray src tgt max_num_data = Some (<[0%nat := 0]> tgt, 0).
Proof.
  intros Hm. unfold CopyCharArray.
  replace (Z.to_nat max_num_data) with 0%nat by lia. simpl.
  rewrite lookup_insert_eq. reflexivity.
Qed.

Lemma X10_copy_char_array_nonpositive_max_witness :
  -5 <= 0 /\ CopyCharArray ∅ ∅ (-5) = Some (<[0%nat := 0]> ∅, 0).
Proof.
  assert (H : -5 <= 0) by lia.
  split; [exact H | apply (X10_copy_char_array_nonpositive_max ∅ ∅ (-5) H)].
Defined.

(** ** Handshake output *)

Lemma hs_loop_output arr : forall buf out,
  match hs_loop arr buf out with
  | HsReady _ later o =>
      (length later <= length arr)%nat /\
      o = out ++ repeat chr_A (length arr - length later)
  | HsPending o => o = out ++ repeat chr_A (S (length arr))
  end.
Proof.
  induction arr as [|c arr IHarr]; intros buf; induction buf as [|b buf IHbuf];
    intros out.
  - reflexivity.
  - rewrite hs_loop_byte. destruct (Z.eqb b chr_P).
    + simpl. rewrite app_nil_r. split; reflexivity.
    + apply IHbuf.
  - rewrite hs_loop_empty_cons. specialize (IHarr c (out ++ [chr_A])).
    destruct (hs_loop arr c (out ++ [chr_A])) as [r later o|o].
    + destruct IHarr as [Hle ->]. simpl. split; [lia|].
      rewrite <- app_assoc. f_equal.
      replace (S (length arr) - length later)%nat with (S (length arr - length later)) by lia.
      reflexivity.
    + rewrite IHarr, <- app_assoc. reflexivity.
  - rewrite hs_loop_byte. destruct (Z.eqb b chr_P).
    + simpl. rewrite Nat.sub_diag. simpl. rewrite app_nil_r. split; [lia | reflexivity].
    + apply IHbuf.
Qed.

(** X11: [SerialHandshake] writes exactly one 'A' per poll that found the
    receive buffer empty: on completion, one per chunk that arrived before
    the 'P' (the chunks not yet consumed are the ones left over); while still
    pending after [n] chunks, [n + 1], the last for the empty poll it is
    repeating. *)
Theorem X11_handshake_one_A_per_empty_poll (buf0 : list Z) (arr : list (list Z)) :
  match SerialHandshake buf0 arr with
  | HsReady _ later out =>
      (length later <= length arr)%nat /\
      out = repeat chr_A (length arr - length later)
  | HsPending out => out = repeat chr_A (S (length arr))
  end.
Proof. apply (hs_loop_output arr buf0 []). Qed.
